(** * pbsmetrics: the metrics taxonomy and the recording contract

    A shallow embedding of [pbsmetrics/metrics.go].  The file declares
    - ten string-backed label types, each with a [const] block and an
      accessor function returning a slice literal of those constants;
    - the label bundles [Labels], [AdapterLabels], [ImpLabels],
      [RequestLabels] and [UserLabels];
    - the [MetricsEngine] interface.

    A Go [const] block is read as a pair: the names it declares (an inductive
    type, one constructor per constant, in declaration order) and the string
    each name stands for (a [_value] function).  An accessor is the slice
    literal of its body: the constants it lists, by name, resolved to their
    strings. *)

From stdpp Require Import strings list gmap.

Open Scope string_scope.

(** ** Label types

    [type DemandSource string] and its nine siblings: named types whose
    underlying type is [string].  Any string converts to them; the declared
    constants are the values the package itself provides. *)

Definition DemandSource := string.
Definition ImpMediaType := string.
Definition RequestType := string.
Definition Browser := string.
Definition CookieFlag := string.
Definition RequestStatus := string.
Definition AdapterBid := string.
Definition AdapterError := string.
Definition CacheResult := string.
Definition RequestAction := string.

(** [const PublisherUnknown = "unknown"], documented in the source as the
    default value for [Labels.PubID]. *)
Definition PublisherUnknown : string := "unknown".

(** ** The demand sources *)

Inductive DemandSourceConst := DemandWeb | DemandApp | DemandUnknown.

Definition DemandSource_value (c : DemandSourceConst) : DemandSource :=
  match c with
  | DemandWeb => "web"
  | DemandApp => "app"
  | DemandUnknown => "unknown"
  end.

Definition DemandTypes : list DemandSource :=
  DemandSource_value <$> [DemandWeb; DemandApp; DemandUnknown].

(** ** The request types (endpoints) *)

Inductive RequestTypeConst :=
  ReqTypeLegacy | ReqTypeORTB2Web | ReqTypeORTB2App | ReqTypeAMP | ReqTypeVideo.

Definition RequestType_value (c : RequestTypeConst) : RequestType :=
  match c with
  | ReqTypeLegacy => "legacy"
  | ReqTypeORTB2Web => "openrtb2-web"
  | ReqTypeORTB2App => "openrtb2-app"
  | ReqTypeAMP => "amp"
  | ReqTypeVideo => "video"
  end.

(** ** The media types described in the "imp" json objects *)

Inductive ImpMediaTypeConst :=
  ImpTypeBanner | ImpTypeVideo | ImpTypeAudio | ImpTypeNative.

Definition ImpMediaType_value (c : ImpMediaTypeConst) : ImpMediaType :=
  match c with
  | ImpTypeBanner => "banner"
  | ImpTypeVideo => "video"
  | ImpTypeAudio => "audio"
  | ImpTypeNative => "native"
  end.

Definition RequestTypes : list RequestType :=
  RequestType_value <$>
    [ReqTypeLegacy; ReqTypeORTB2Web; ReqTypeORTB2App; ReqTypeAMP; ReqTypeVideo].

Definition ImpTypes : list ImpMediaType :=
  ImpMediaType_value <$>
    [ImpTypeBanner; ImpTypeVideo; ImpTypeAudio; ImpTypeNative].

(** ** Browser flag *)

Inductive BrowserConst := BrowserSafari | BrowserOther.

Definition Browser_value (c : BrowserConst) : Browser :=
  match c with
  | BrowserSafari => "safari"
  | BrowserOther => "other"
  end.

Definition BrowserTypes : list Browser :=
  Browser_value <$> [BrowserSafari; BrowserOther].

(** ** Cookie flag *)

Inductive CookieFlagConst := CookieFlagYes | CookieFlagNo | CookieFlagUnknown.

Definition CookieFlag_value (c : CookieFlagConst) : CookieFlag :=
  match c with
  | CookieFlagYes => "exists"
  | CookieFlagNo => "no"
  | CookieFlagUnknown => "unknown"
  end.

Definition CookieTypes : list CookieFlag :=
  CookieFlag_value <$> [CookieFlagYes; CookieFlagNo; CookieFlagUnknown].

(** ** Request/return status *)

Inductive RequestStatusConst :=
  | RequestStatusOK
  | RequestStatusBadInput
  | RequestStatusErr
  | RequestStatusNetworkErr
  | RequestStatusBlacklisted.

Definition RequestStatus_value (c : RequestStatusConst) : RequestStatus :=
  match c with
  | RequestStatusOK => "ok"
  | RequestStatusBadInput => "badinput"
  | RequestStatusErr => "err"
  | RequestStatusNetworkErr => "networkerr"
  | RequestStatusBlacklisted => "blacklistedacctorapp"
  end.

Definition RequestStatuses : list RequestStatus :=
  RequestStatus_value <$>
    [RequestStatusOK; RequestStatusBadInput; RequestStatusErr;
     RequestStatusNetworkErr; RequestStatusBlacklisted].

(** ** Adapter bid response status *)

Inductive AdapterBidConst := AdapterBidPresent | AdapterBidNone.

Definition AdapterBid_value (c : AdapterBidConst) : AdapterBid :=
  match c with
  | AdapterBidPresent => "bid"
  | AdapterBidNone => "nobid"
  end.

Definition AdapterBids : list AdapterBid :=
  AdapterBid_value <$> [AdapterBidPresent; AdapterBidNone].

(** ** Adapter execution status *)

Inductive AdapterErrorConst :=
  | AdapterErrorBadInput
  | AdapterErrorBadServerResponse
  | AdapterErrorTimeout
  | AdapterErrorFailedToRequestBids
  | AdapterErrorUnknown.

Definition AdapterError_value (c : AdapterErrorConst) : AdapterError :=
  match c with
  | AdapterErrorBadInput => "badinput"
  | AdapterErrorBadServerResponse => "badserverresponse"
  | AdapterErrorTimeout => "timeout"
  | AdapterErrorFailedToRequestBids => "failedtorequestbid"
  | AdapterErrorUnknown => "unknown_error"
  end.

Definition AdapterErrors : list AdapterError :=
  AdapterError_value <$>
    [AdapterErrorBadInput; AdapterErrorBadServerResponse; AdapterErrorTimeout;
     AdapterErrorFailedToRequestBids; AdapterErrorUnknown].

(** ** Cache hit/miss *)

Inductive CacheResultConst := CacheHit | CacheMiss.

Definition CacheResult_value (c : CacheResultConst) : CacheResult :=
  match c with
  | CacheHit => "hit"
  | CacheMiss => "miss"
  end.

Definition CacheResults : list CacheResult :=
  CacheResult_value <$> [CacheHit; CacheMiss].

(** ** /setuid action labels *)

Inductive RequestActionConst :=
  RequestActionSet | RequestActionOptOut | RequestActionGDPR | RequestActionErr.

Definition RequestAction_value (c : RequestActionConst) : RequestAction :=
  match c with
  | RequestActionSet => "set"
  | RequestActionOptOut => "opt_out"
  | RequestActionGDPR => "gdpr"
  | RequestActionErr => "err"
  end.

Definition RequestActions : list RequestAction :=
  RequestAction_value <$>
    [RequestActionSet; RequestActionOptOut; RequestActionGDPR; RequestActionErr].

(** ** Types of package [openrtb_ext] used by the bundles and the interface *)

Module openrtb_ext.
(** Modelled from the spec: [openrtb_ext.BidderName] is declared outside this
    package; the spec calls it the adapter identity, one of the configured
    bidder names, carried as a name. *)
Definition BidderName := string.

(** Modelled from the spec: [openrtb_ext.BidType] is declared outside this
    package; the spec calls it the media type of a received bid. *)
Definition BidType := string.
End openrtb_ext.

(** ** Label bundles *)

(** [Labels]: the labels that can be attached to the metrics.  Go has no field
    defaults: [zero] is the value of [Labels{}], every string field empty.  A
    composite literal [Labels{k1: v1, ..., kn: vn}] starts from [zero] and
    assigns the keyed fields; an assignment [l.k = v] after construction is
    the same [assign]. *)
Module Labels.
Record t := mk {
  Source : DemandSource;
  RType : RequestType;
  PubID : string;
  Browser : Browser;
  CookieFlag : CookieFlag;
  RequestStatus : RequestStatus;
}.

Definition zero : t := mk "" "" "" "" "" "".

Inductive key := KSource | KRType | KPubID | KBrowser | KCookieFlag | KRequestStatus.

Definition assign (l : t) (kv : key * string) : t :=
  match kv.1 with
  | KSource => mk kv.2 (RType l) (PubID l) (Browser l) (CookieFlag l) (RequestStatus l)
  | KRType => mk (Source l) kv.2 (PubID l) (Browser l) (CookieFlag l) (RequestStatus l)
  | KPubID => mk (Source l) (RType l) kv.2 (Browser l) (CookieFlag l) (RequestStatus l)
  | KBrowser => mk (Source l) (RType l) (PubID l) kv.2 (CookieFlag l) (RequestStatus l)
  | KCookieFlag => mk (Source l) (RType l) (PubID l) (Browser l) kv.2 (RequestStatus l)
  | KRequestStatus => mk (Source l) (RType l) (PubID l) (Browser l) (CookieFlag l) kv.2
  end.

Definition literal (kvs : list (key * string)) : t := foldl assign zero kvs.
End Labels.

(** [map[AdapterError]struct{}]: a map whose values carry no information.  The
    operations are Go's on such a map: index with the comma-ok form, assign,
    [len], and the keys a [range] visits.  A nil map answers each read
    ([has], [len], [keys]) as the empty map does and stands as [∅] here. *)
Module ErrorSet.
Abbreviation t := (gmap AdapterError ()).

Definition has (e : AdapterError) (m : t) : bool := bool_decide (is_Some (m !! e)).
Definition add (m : t) (e : AdapterError) : t := <[e := ()]> m.
Definition len (m : t) : nat := size m.
Definition keys (m : t) : list AdapterError := (map_to_list m).*1.
Definition make (es : list AdapterError) : t := foldl add ∅ es.
End ErrorSet.

(** [AdapterLabels]: the labels that can be attached to the adapter metrics. *)
Module AdapterLabels.
Record t := mk {
  Source : DemandSource;
  RType : RequestType;
  Adapter : openrtb_ext.BidderName;
  PubID : string;
  Browser : Browser;
  CookieFlag : CookieFlag;
  AdapterBids : AdapterBid;
  AdapterErrors : ErrorSet.t;
}.
End AdapterLabels.

(** [ImpLabels]: metric labels describing the impression type. *)
Module ImpLabels.
Record t := mk {
  BannerImps : bool;
  VideoImps : bool;
  AudioImps : bool;
  NativeImps : bool;
}.


End ImpLabels.

(** [RequestLabels]: metric labels describing the result of a network request. *)
Module RequestLabels.
Record t := mk { RequestStatus : RequestStatus }.
End RequestLabels.

(** [UserLabels]: labels for the /setuid endpoint. *)
Module UserLabels.
Record t := mk {
  Action : RequestAction;
  Bidder : openrtb_ext.BidderName;
}.
End UserLabels.

(** ** The [MetricsEngine] interface

    A Go interface is a method set.  Each method is recorded with its name, its
    parameter types and its result types, as the declaration writes them. *)

Inductive GoType :=
  | TBool
  | TInt
  | TFloat64
  | TDuration
  | TLabels
  | TAdapterLabels
  | TImpLabels
  | TUserLabels
  | TCacheResult
  | TBidderName
  | TBidType.

Record Method := mkMethod {
  name : string;
  params : list GoType;
  results : list GoType;
}.

Definition MetricsEngine : list Method := [
  mkMethod "RecordConnectionAccept" [TBool] [];
  mkMethod "RecordConnectionClose" [TBool] [];
  mkMethod "RecordRequest" [TLabels] [];
  mkMethod "RecordImps" [TImpLabels] [];
  mkMethod "RecordLegacyImps" [TLabels; TInt] [];
  mkMethod "RecordRequestTime" [TLabels; TDuration] [];
  mkMethod "RecordAdapterRequest" [TAdapterLabels] [];
  mkMethod "RecordAdapterPanic" [TAdapterLabels] [];
  mkMethod "RecordAdapterBidReceived" [TAdapterLabels; TBidType; TBool] [];
  mkMethod "RecordAdapterPrice" [TAdapterLabels; TFloat64] [];
  mkMethod "RecordAdapterTime" [TAdapterLabels; TDuration] [];
  mkMethod "RecordCookieSync" [] [];
  mkMethod "RecordAdapterCookieSync" [TBidderName; TBool] [];
  mkMethod "RecordUserIDSet" [TUserLabels] [];
  mkMethod "RecordStoredReqCacheResult" [TCacheResult; TInt] [];
  mkMethod "RecordStoredImpCacheResult" [TCacheResult; TInt] [];
  mkMethod "RecordPrebidCacheRequestTime" [TBool; TDuration] []
].

(** ** Invoking an accessor

    Each accessor's body is [return []T{...}]: a slice literal, evaluated at
    every call.  Go allocates a new backing array for it each time.  The heap
    maps a slice's address to the contents of its backing array; the package
    declares no variable, so an accessor reads nothing from it. *)

Inductive Accessor :=
  | FnDemandTypes
  | FnRequestTypes
  | FnImpTypes
  | FnBrowserTypes
  | FnCookieTypes
  | FnRequestStatuses
  | FnAdapterBids
  | FnAdapterErrors
  | FnCacheResults
  | FnRequestActions.

Definition body (f : Accessor) : list string :=
  match f with
  | FnDemandTypes => DemandTypes
  | FnRequestTypes => RequestTypes
  | FnImpTypes => ImpTypes
  | FnBrowserTypes => BrowserTypes
  | FnCookieTypes => CookieTypes
  | FnRequestStatuses => RequestStatuses
  | FnAdapterBids => AdapterBids
  | FnAdapterErrors => AdapterErrors
  | FnCacheResults => CacheResults
  | FnRequestActions => RequestActions
  end.

Abbreviation heap := (gmap nat (list string)).

(** A call: the literal goes to an address not in use, which is returned. *)
Definition invoke (f : Accessor) (h : heap) : nat * heap :=
  let p := fresh (dom h) in (p, <[p := body f]> h).

(** [s[i] = v] by whoever holds the slice at [p]; [None] is Go's panic on an
    index out of range. *)
Definition store (p i : nat) (v : string) (h : heap) : option heap :=
  match h !! p with
  | Some l => if decide (i < length l) then Some (<[p := <[i := v]> l]> h) else None
  | None => None
  end.

(** What the caller reads through the slice a call returned. *)
Definition returned (f : Accessor) (h : heap) : option (list string) :=
  (invoke f h).2 !! (invoke f h).1.

(** ** Reading the interface by parameter type *)

#[global] Instance GoType_eq_dec : EqDecision GoType.
Proof. solve_decision. Defined.

(** The label bundle structs among the parameter types. *)
Definition is_bundle (t : GoType) : bool :=
  match t with
  | TLabels | TAdapterLabels | TImpLabels | TUserLabels => true
  | _ => false
  end.

(** The operations, by name and in declaration order, that have a parameter of
    type [t]. *)
Definition methods_taking (t : GoType) : list string :=
  name <$> filter (λ m : Method, t ∈ params m) MetricsEngine.

(** ** What it means for an accessor to agree with its [const] block *)

(** The accessor's result, as a set, is the set of declared constants: every
    listed string is the value of a declared constant and every declared
    constant's value is listed. *)
Definition lists_exactly {C : Type} (value : C → string) (acc : list string) : Prop :=
  ∀ v : string, v ∈ acc ↔ ∃ c : C, value c = v.

(** Distinct declared constants stand for distinct strings. *)
Definition distinct_values {C : Type} (value : C → string) : Prop :=
  ∀ c1 c2 : C, value c1 = value c2 → c1 = c2.

Ltac lists_exactly_tac :=
  let v := fresh "v" in
  let c := fresh "c" in
  let H := fresh "H" in
  lazymatch goal with
  | |- lists_exactly _ ?acc => unfold lists_exactly, acc; simpl
  end;
  intros v; split;
  [ intros H;
    repeat (apply elem_of_cons in H as [-> | H];
            [solve [unshelve eexists; [constructor | reflexivity]] |]);
    by apply elem_of_nil in H
  | intros [c <-]; destruct c; simpl;
    repeat first [apply list_elem_of_here | apply list_elem_of_further] ].

Ltac distinct_values_tac :=
  let c1 := fresh "c" in
  let c2 := fresh "c" in
  intros c1 c2; destruct c1, c2; simpl; first [reflexivity | discriminate].

Ltac not_listed H :=
  repeat (apply elem_of_cons in H as [H | H]; [discriminate H |]);
  by apply elem_of_nil in H.

Ltac nodup_tac :=
  repeat (apply NoDup_cons; split;
          [ let H := fresh "H" in intros H; not_listed H | ]);
  apply NoDup_nil_2.

(** * Properties *)

(** ** Each accessor against its [const] block *)

Lemma DemandTypes_lists_exactly : lists_exactly DemandSource_value DemandTypes.
Proof. lists_exactly_tac. Qed.

Lemma RequestTypes_lists_exactly : lists_exactly RequestType_value RequestTypes.
Proof. lists_exactly_tac. Qed.

Lemma ImpTypes_lists_exactly : lists_exactly ImpMediaType_value ImpTypes.
Proof. lists_exactly_tac. Qed.

Lemma BrowserTypes_lists_exactly : lists_exactly Browser_value BrowserTypes.
Proof. lists_exactly_tac. Qed.

Lemma CookieTypes_lists_exactly : lists_exactly CookieFlag_value CookieTypes.
Proof. lists_exactly_tac. Qed.

Lemma RequestStatuses_lists_exactly : lists_exactly RequestStatus_value RequestStatuses.
Proof. lists_exactly_tac. Qed.

Lemma AdapterBids_lists_exactly : lists_exactly AdapterBid_value AdapterBids.
Proof. lists_exactly_tac. Qed.

Lemma AdapterErrors_lists_exactly : lists_exactly AdapterError_value AdapterErrors.
Proof. lists_exactly_tac. Qed.

Lemma CacheResults_lists_exactly : lists_exactly CacheResult_value CacheResults.
Proof. lists_exactly_tac. Qed.

Lemma RequestActions_lists_exactly : lists_exactly RequestAction_value RequestActions.
Proof. lists_exactly_tac. Qed.

(** C4: for each of the ten restricted-domain types, the set of values its
    accessor returns is exactly the set of constants declared for the type: no
    declared constant is missing and nothing else is returned. *)
Theorem accessors_list_exactly_the_constants :
  lists_exactly DemandSource_value DemandTypes ∧
  lists_exactly RequestType_value RequestTypes ∧
  lists_exactly ImpMediaType_value ImpTypes ∧
  lists_exactly Browser_value BrowserTypes ∧
  lists_exactly CookieFlag_value CookieTypes ∧
  lists_exactly RequestStatus_value RequestStatuses ∧
  lists_exactly AdapterBid_value AdapterBids ∧
  lists_exactly AdapterError_value AdapterErrors ∧
  lists_exactly CacheResult_value CacheResults ∧
  lists_exactly RequestAction_value RequestActions.
Proof.
  repeat apply conj;
    [ apply DemandTypes_lists_exactly | apply RequestTypes_lists_exactly
    | apply ImpTypes_lists_exactly | apply BrowserTypes_lists_exactly
    | apply CookieTypes_lists_exactly | apply RequestStatuses_lists_exactly
    | apply AdapterBids_lists_exactly | apply AdapterErrors_lists_exactly
    | apply CacheResults_lists_exactly | apply RequestActions_lists_exactly ].
Qed.

(** ** The values of [RequestStatus] and [AdapterError] *)

(** C1, as the specification words it: the fifth status would be the string
    "blacklisted-account-or-app".  [RequestStatuses] does not return it. *)
Lemma RequestStatuses_spec_values_refuted :
  ¬ (∀ v : RequestStatus,
       v ∈ RequestStatuses ↔
       v ∈ ["ok"; "badinput"; "err"; "networkerr"; "blacklisted-account-or-app"]).
Proof.
  intros Hall.
  destruct (Hall "blacklisted-account-or-app") as [_ Hin].
  assert (Hmem : "blacklisted-account-or-app" ∈ RequestStatuses).
  { apply Hin. do 4 apply list_elem_of_further. apply list_elem_of_here. }
  unfold RequestStatuses in Hmem. simpl in Hmem. not_listed Hmem.
Qed.

(** C1 (amended): the legal values of [RequestStatus] are exactly ok, badinput,
    err, networkerr and blacklistedacctorapp: these are the declared constants,
    and [RequestStatuses] returns exactly them, in this order. *)
Theorem RequestStatuses_legal_values :
  RequestStatuses = ["ok"; "badinput"; "err"; "networkerr"; "blacklistedacctorapp"] ∧
  lists_exactly RequestStatus_value RequestStatuses ∧
  (∀ v : RequestStatus,
     v ∈ RequestStatuses ↔
     v ∈ ["ok"; "badinput"; "err"; "networkerr"; "blacklistedacctorapp"]).
Proof.
  split; [reflexivity |]. split; [apply RequestStatuses_lists_exactly |].
  intros v. reflexivity.
Qed.

(** C2, as the specification words it: the fifth error would be the string
    "unknown".  [AdapterErrors] does not return it. *)
Lemma AdapterErrors_spec_values_refuted :
  ¬ (∀ v : AdapterError,
       v ∈ AdapterErrors ↔
       v ∈ ["badinput"; "badserverresponse"; "timeout"; "failedtorequestbid"; "unknown"]).
Proof.
  intros Hall.
  destruct (Hall "unknown") as [_ Hin].
  assert (Hmem : "unknown" ∈ AdapterErrors).
  { apply Hin. do 4 apply list_elem_of_further. apply list_elem_of_here. }
  unfold AdapterErrors in Hmem. simpl in Hmem. not_listed Hmem.
Qed.

(** C2 (amended): the legal values of [AdapterError] are exactly badinput,
    badserverresponse, timeout, failedtorequestbid and unknown_error: these are
    the declared constants, and [AdapterErrors] returns exactly them, in this
    order. *)
Theorem AdapterErrors_legal_values :
  AdapterErrors =
    ["badinput"; "badserverresponse"; "timeout"; "failedtorequestbid"; "unknown_error"] ∧
  lists_exactly AdapterError_value AdapterErrors ∧
  (∀ v : AdapterError,
     v ∈ AdapterErrors ↔
     v ∈ ["badinput"; "badserverresponse"; "timeout"; "failedtorequestbid"; "unknown_error"]).
Proof.
  split; [reflexivity |]. split; [apply AdapterErrors_lists_exactly |].
  intros v. reflexivity.
Qed.

(** ** [Labels.PubID] and [PublisherUnknown] *)

(** An assignment to another field leaves [PubID] as it was. *)
Lemma Labels_assign_other (l : Labels.t) (kv : Labels.key * string) :
  kv.1 ≠ Labels.KPubID → Labels.PubID (Labels.assign l kv) = Labels.PubID l.
Proof.
  destruct kv as [k v]. unfold Labels.assign. simpl.
  destruct k; intros Hk; try reflexivity. by destruct Hk.
Qed.

Lemma Labels_foldl_assign_other (kvs : list (Labels.key * string)) (l : Labels.t) :
  Labels.KPubID ∉ kvs.*1 →
  Labels.PubID (foldl Labels.assign l kvs) = Labels.PubID l.
Proof.
  revert l. induction kvs as [| kv kvs IH]; intros l Hnot; [reflexivity |].
  rewrite fmap_cons in Hnot. apply not_elem_of_cons in Hnot as [Hhd Htl].
  simpl. rewrite IH by exact Htl.
  apply Labels_assign_other. congruence.
Qed.

(** C3, as the specification words it: a [Labels] whose [PubID] was never set
    would read "unknown".  [Labels{}] reads the empty string. *)
Lemma Labels_PubID_default_refuted :
  ¬ (∀ kvs : list (Labels.key * string),
       Labels.KPubID ∉ kvs.*1 →
       Labels.PubID (Labels.literal kvs) = PublisherUnknown).
Proof.
  intros Hall.
  assert (Hnil : Labels.KPubID ∉ ([] : list (Labels.key * string)).*1)
    by apply not_elem_of_nil.
  specialize (Hall [] Hnil). discriminate Hall.
Qed.

(** C3 (amended): [PublisherUnknown] is the string "unknown", which is not
    empty.  The struct applies no default: a [Labels] whose [PubID] was never
    set reads the empty string, and it reads "unknown" once the caller assigns
    [PublisherUnknown] to the field. *)
Theorem Labels_PubID_unset_is_zero_value (kvs : list (Labels.key * string)) :
  Labels.KPubID ∉ kvs.*1 →
  Labels.PubID (Labels.literal kvs) = "" ∧
  Labels.PubID (Labels.literal (kvs ++ [(Labels.KPubID, PublisherUnknown)])) = "unknown" ∧
  Labels.PubID (Labels.assign (Labels.literal kvs) (Labels.KPubID, PublisherUnknown)) = "unknown" ∧
  PublisherUnknown = "unknown" ∧ PublisherUnknown ≠ "".
Proof.
  intros Hnot. unfold Labels.literal.
  split; [by rewrite Labels_foldl_assign_other |].
  split; [by rewrite foldl_app |].
  repeat split; discriminate.
Qed.

(** The amended C3 at [Labels{Source: "web", RType: "amp"}]. *)
Lemma Labels_PubID_unset_is_zero_value_witness :
  Labels.PubID (Labels.literal [(Labels.KSource, "web"); (Labels.KRType, "amp")]) = "" ∧
  Labels.PubID
    (Labels.literal
       ([(Labels.KSource, "web"); (Labels.KRType, "amp")] ++
        [(Labels.KPubID, PublisherUnknown)])) = "unknown" ∧
  Labels.PubID
    (Labels.assign (Labels.literal [(Labels.KSource, "web"); (Labels.KRType, "amp")])
       (Labels.KPubID, PublisherUnknown)) = "unknown" ∧
  PublisherUnknown = "unknown" ∧ PublisherUnknown ≠ "".
Proof.
  apply (Labels_PubID_unset_is_zero_value
           [(Labels.KSource, "web"); (Labels.KRType, "amp")]).
  simpl. intros H.
  repeat (apply elem_of_cons in H as [H | H]; [discriminate H |]).
  by apply elem_of_nil in H.
Defined.

(** ** [AdapterLabels.AdapterErrors] *)

Lemma ErrorSet_has_true (e : AdapterError) (m : ErrorSet.t) :
  ErrorSet.has e m = true ↔ is_Some (m !! e).
Proof. unfold ErrorSet.has. apply bool_decide_eq_true. Qed.

Lemma ErrorSet_has_add (e e' : AdapterError) (m : ErrorSet.t) :
  ErrorSet.has e (ErrorSet.add m e') = true ↔ e = e' ∨ ErrorSet.has e m = true.
Proof.
  rewrite !ErrorSet_has_true. unfold ErrorSet.add.
  destruct (decide (e' = e)) as [-> | Hne].
  - rewrite lookup_insert_eq. split; [by left | by eexists].
  - rewrite lookup_insert_ne by exact Hne. split; [by right |].
    intros [-> | H]; [by destruct Hne | exact H].
Qed.

Lemma ErrorSet_has_foldl (es : list AdapterError) (m : ErrorSet.t) (e : AdapterError) :
  ErrorSet.has e (foldl ErrorSet.add m es) = true ↔ ErrorSet.has e m = true ∨ e ∈ es.
Proof.
  revert m. induction es as [| e' es IH]; intros m; simpl.
  - split; [by left |]. intros [H | H]; [exact H | by apply elem_of_nil in H].
  - rewrite IH, ErrorSet_has_add, elem_of_cons. tauto.
Qed.




(** ** The recording contract *)

(** C6: every operation of [MetricsEngine] (there are seventeen) declares no
    result: none can hand an error or a value back to its caller. *)
Theorem MetricsEngine_methods_return_nothing :
  length MetricsEngine = 17 ∧
  Forall (λ m : Method, results m = []) MetricsEngine ∧
  (∀ m : Method, m ∈ MetricsEngine → length (results m) = 0).
Proof.
  assert (Hall : Forall (λ m : Method, results m = []) MetricsEngine).
  { unfold MetricsEngine. repeat (apply Forall_cons; split; [reflexivity |]).
    apply Forall_nil_2. }
  split; [reflexivity |]. split; [exact Hall |].
  intros m Hin. rewrite Forall_forall in Hall. by rewrite (Hall m Hin).
Qed.

(** ** [ImpLabels] *)



(** ** Invocations of the accessors *)

(** A call returns a slice holding the literal of the accessor's body,
    whatever the heap it is made in. *)
Lemma returned_body (f : Accessor) (h : heap) : returned f h = Some (body f).
Proof. unfold returned, invoke. simpl. apply lookup_insert_eq. Qed.

(** The slice a call returns is new: no slice already in the heap is it. *)
Lemma invoke_fresh (f : Accessor) (h : heap) : (invoke f h).1 ∉ dom h.
Proof. unfold invoke. simpl. apply is_fresh. Qed.

(** C8: [RequestTypes] returns the legal [RequestType] values, all of them, in
    the order legacy, openrtb2-web, openrtb2-app, amp, video, and every
    invocation returns the list in this order. *)
Theorem RequestTypes_stable_order :
  RequestTypes = ["legacy"; "openrtb2-web"; "openrtb2-app"; "amp"; "video"] ∧
  lists_exactly RequestType_value RequestTypes ∧
  (∀ h : heap,
     returned FnRequestTypes h =
     Some ["legacy"; "openrtb2-web"; "openrtb2-app"; "amp"; "video"]).
Proof.
  split; [reflexivity |]. split; [apply RequestTypes_lists_exactly |].
  intros h. by rewrite returned_body.
Qed.

(** A store that does not panic overwrites one element of the slice it goes
    through. *)
Lemma store_Some (p i : nat) (v : string) (h h' : heap) :
  store p i v h = Some h' →
  ∃ l : list string, h !! p = Some l ∧ i < length l ∧ h' !! p = Some (<[i := v]> l).
Proof.
  unfold store. destruct (h !! p) as [l |] eqn:Hp; [| discriminate].
  destruct (decide (i < length l)) as [Hlt | Hge]; [| discriminate].
  intros [= <-]. exists l. repeat split; [exact Hlt |]. apply lookup_insert_eq.
Qed.

(** C9: every accessor is constant.  Two invocations, made in any two heaps,
    return equal lists.  The slice an invocation returns is new and the slices
    already there are left as they were; a store through any slice, one
    returned by an earlier invocation included, changes that slice for its
    holder and does not change what a later invocation returns. *)
Theorem accessors_constant :
  (∀ (f : Accessor) (h1 h2 : heap), returned f h1 = returned f h2) ∧
  (∀ (f : Accessor) (h : heap),
     ((invoke f h).1 ∉ dom h) ∧
     ∀ q : nat, q ∈ dom h → (invoke f h).2 !! q = h !! q) ∧
  (∀ (f : Accessor) (h h' : heap) (p i : nat) (v : string),
     store p i v h = Some h' →
     (∃ l : list string, h !! p = Some l ∧ h' !! p = Some (<[i := v]> l)) ∧
     returned f h' = Some (body f)).
Proof.
  repeat apply conj.
  - intros f h1 h2. by rewrite !returned_body.
  - intros f h. split; [apply invoke_fresh |].
    intros q Hq. unfold invoke. simpl.
    apply lookup_insert_ne. intros Heq. subst q.
    by apply (is_fresh (dom h)).
  - intros f h h' p i v Hstore. split; [| apply returned_body].
    destruct (store_Some _ _ _ _ _ Hstore) as (l & Hl & _ & Hl').
    by exists l.
Qed.

(** C9 at a caller overwriting the first element of the slice that
    [BrowserTypes] returned to it: the caller's slice now starts with
    "chrome", and the next invocation still returns safari, other. *)
Lemma accessors_constant_witness :
  store (invoke FnBrowserTypes ∅).1 0 "chrome" (invoke FnBrowserTypes ∅).2 =
    Some (<[0 := ["chrome"; "other"]]> (invoke FnBrowserTypes ∅).2) ∧
  returned FnBrowserTypes (<[0 := ["chrome"; "other"]]> (invoke FnBrowserTypes ∅).2) =
    Some ["safari"; "other"].
Proof.
  assert (Hstore :
    store (invoke FnBrowserTypes ∅).1 0 "chrome" (invoke FnBrowserTypes ∅).2 =
      Some (<[0 := ["chrome"; "other"]]> (invoke FnBrowserTypes ∅).2))
    by (vm_compute; reflexivity).
  split; [exact Hstore |].
  exact (proj2 (proj2 (proj2 accessors_constant) FnBrowserTypes _ _ _ _ _ Hstore)).
Defined.

(** ** Distinct values *)

Lemma DemandSource_distinct : distinct_values DemandSource_value.
Proof. distinct_values_tac. Qed.

Lemma RequestType_distinct : distinct_values RequestType_value.
Proof. distinct_values_tac. Qed.

Lemma ImpMediaType_distinct : distinct_values ImpMediaType_value.
Proof. distinct_values_tac. Qed.

Lemma Browser_distinct : distinct_values Browser_value.
Proof. distinct_values_tac. Qed.

Lemma CookieFlag_distinct : distinct_values CookieFlag_value.
Proof. distinct_values_tac. Qed.

Lemma RequestStatus_distinct : distinct_values RequestStatus_value.
Proof. distinct_values_tac. Qed.

Lemma AdapterBid_distinct : distinct_values AdapterBid_value.
Proof. distinct_values_tac. Qed.

Lemma AdapterError_distinct : distinct_values AdapterError_value.
Proof. distinct_values_tac. Qed.

Lemma CacheResult_distinct : distinct_values CacheResult_value.
Proof. distinct_values_tac. Qed.

Lemma RequestAction_distinct : distinct_values RequestAction_value.
Proof. distinct_values_tac. Qed.

(** Listing distinct constants, each once, gives a list without repetition. *)
Lemma distinct_values_NoDup {C : Type} (value : C → string) (cs : list C) :
  distinct_values value → NoDup cs → NoDup (value <$> cs).
Proof.
  intros Hdistinct Hcs. induction Hcs as [| c cs Hnotin Hcs IH]; simpl.
  - apply NoDup_nil_2.
  - apply NoDup_cons. split; [| exact IH].
    intros Hin. apply list_elem_of_fmap in Hin as (c' & Heq & Hin').
    apply Hdistinct in Heq. by subst c'.
Qed.

(** C10: within each restricted-domain type the declared constants stand for
    pairwise different strings, and every accessor returns a list without
    repetition. *)
Theorem accessor_values_distinct :
  (distinct_values DemandSource_value ∧ NoDup DemandTypes) ∧
  (distinct_values RequestType_value ∧ NoDup RequestTypes) ∧
  (distinct_values ImpMediaType_value ∧ NoDup ImpTypes) ∧
  (distinct_values Browser_value ∧ NoDup BrowserTypes) ∧
  (distinct_values CookieFlag_value ∧ NoDup CookieTypes) ∧
  (distinct_values RequestStatus_value ∧ NoDup RequestStatuses) ∧
  (distinct_values AdapterBid_value ∧ NoDup AdapterBids) ∧
  (distinct_values AdapterError_value ∧ NoDup AdapterErrors) ∧
  (distinct_values CacheResult_value ∧ NoDup CacheResults) ∧
  (distinct_values RequestAction_value ∧ NoDup RequestActions).
Proof.
  pose proof DemandSource_distinct. pose proof RequestType_distinct.
  pose proof ImpMediaType_distinct. pose proof Browser_distinct.
  pose proof CookieFlag_distinct. pose proof RequestStatus_distinct.
  pose proof AdapterBid_distinct. pose proof AdapterError_distinct.
  pose proof CacheResult_distinct. pose proof RequestAction_distinct.
  repeat apply conj; try assumption;
    lazymatch goal with
    | |- NoDup ?acc =>
        unfold acc; apply distinct_values_NoDup; [assumption | nodup_tac]
    end.
Qed.

(** * Further properties *)

(** ** Values shared between dimensions *)

Ltac unfold_accessors H :=
  unfold body, DemandTypes, RequestTypes, ImpTypes, BrowserTypes, CookieTypes,
    RequestStatuses, AdapterBids, AdapterErrors, CacheResults, RequestActions in H;
  simpl in H.

Ltac listed :=
  repeat first [apply list_elem_of_here | apply list_elem_of_further].

(** X1: a value does not name its dimension.  Two different accessors return a
    common string in four cases only: "unknown" (demand source and cookie
    flag), "video" (request type and media type), "badinput" (request status
    and adapter error) and "err" (request status and request action).  The
    publisher sentinel [PublisherUnknown] is the first of these: it is a legal
    demand source and a legal cookie flag, and no legal adapter error. *)
Theorem values_shared_between_dimensions :
  (∀ (f g : Accessor) (v : string),
     f ≠ g ∧ v ∈ body f ∧ v ∈ body g ↔
     (f, g, v) ∈
       [ (FnDemandTypes, FnCookieTypes, "unknown");
         (FnCookieTypes, FnDemandTypes, "unknown");
         (FnRequestTypes, FnImpTypes, "video");
         (FnImpTypes, FnRequestTypes, "video");
         (FnRequestStatuses, FnAdapterErrors, "badinput");
         (FnAdapterErrors, FnRequestStatuses, "badinput");
         (FnRequestStatuses, FnRequestActions, "err");
         (FnRequestActions, FnRequestStatuses, "err") ]) ∧
  (∀ f : Accessor,
     PublisherUnknown ∈ body f ↔ f = FnDemandTypes ∨ f = FnCookieTypes).
Proof.
  split.
  - intros f g v. split.
    + intros (Hne & Hf & Hg).
      destruct f, g; try (by destruct Hne); clear Hne;
        unfold_accessors Hf; unfold_accessors Hg;
        repeat (apply elem_of_cons in Hf as [-> | Hf];
                [first [by not_listed Hg | listed] |]);
        by apply elem_of_nil in Hf.
    + intros Hin.
      repeat (apply elem_of_cons in Hin as [[= -> -> ->] | Hin];
              [repeat apply conj;
                 [discriminate | unfold body; simpl; listed | unfold body; simpl; listed] |]).
      by apply elem_of_nil in Hin.
  - intros f. split.
    + intros Hf. destruct f; unfold_accessors Hf;
        first [by left | by right | by not_listed Hf].
    + intros [-> | ->]; unfold body, PublisherUnknown; simpl; listed.
Qed.

(** ** The size of an error set *)

Lemma ErrorSet_has_make (es : list AdapterError) (e : AdapterError) :
  ErrorSet.has e (ErrorSet.make es) = true ↔ e ∈ es.
Proof.
  unfold ErrorSet.make. rewrite ErrorSet_has_foldl. split; [| by right].
  intros [H | H]; [| exact H].
  apply ErrorSet_has_true in H. rewrite lookup_empty in H. by destruct H.
Qed.

(** The keys a [range] visits are the errors the set has. *)
Lemma ErrorSet_elem_of_keys (m : ErrorSet.t) (e : AdapterError) :
  e ∈ ErrorSet.keys m ↔ ErrorSet.has e m = true.
Proof.
  rewrite ErrorSet_has_true. unfold ErrorSet.keys.
  rewrite list_elem_of_fmap. split.
  - intros ([e' u] & -> & Hin). apply elem_of_map_to_list in Hin. by exists u.
  - intros [u Hu]. exists (e, u). split; [reflexivity |].
    by apply elem_of_map_to_list.
Qed.

Lemma ErrorSet_len_keys (m : ErrorSet.t) : ErrorSet.len m = length (ErrorSet.keys m).
Proof.
  unfold ErrorSet.keys, ErrorSet.len. rewrite length_fmap.
  symmetry. apply length_map_to_list.
Qed.

(** X2: an error set holding declared [AdapterError] values only has at most
    five elements, whatever was added to it and how often; the set of all the
    values [AdapterErrors] returns has exactly five. *)
Theorem AdapterErrors_at_most_five (a : AdapterLabels.t) :
  (∀ e : AdapterError,
     ErrorSet.has e (AdapterLabels.AdapterErrors a) = true → e ∈ AdapterErrors) →
  (ErrorSet.len (AdapterLabels.AdapterErrors a) ≤ 5)%nat ∧
  ErrorSet.len (ErrorSet.make AdapterErrors) = 5.
Proof.
  intros Hdeclared. split.
  - rewrite ErrorSet_len_keys.
    change 5 with (length AdapterErrors).
    apply submseteq_length, NoDup_submseteq.
    + apply NoDup_fst_map_to_list.
    + intros e He. apply Hdeclared. by apply ErrorSet_elem_of_keys.
  - rewrite ErrorSet_len_keys.
    change 5 with (length AdapterErrors).
    apply Permutation_length, NoDup_Permutation.
    + apply NoDup_fst_map_to_list.
    + unfold AdapterErrors. apply distinct_values_NoDup;
        [apply AdapterError_distinct | nodup_tac].
    + intros e. by rewrite ErrorSet_elem_of_keys, ErrorSet_has_make.
Qed.

(** X2 at an adapter call that timed out three times and got one bad
    response. *)
Lemma AdapterErrors_at_most_five_witness :
  (ErrorSet.len
     (AdapterLabels.AdapterErrors
        (AdapterLabels.mk "web" "amp" "appnexus" "unknown" "other" "no" "nobid"
           (ErrorSet.make ["timeout"; "timeout"; "badserverresponse"; "timeout"]))) ≤ 5)%nat ∧
  ErrorSet.len (ErrorSet.make AdapterErrors) = 5.
Proof.
  apply AdapterErrors_at_most_five. simpl. intros e He.
  apply ErrorSet_has_make in He.
  repeat (apply elem_of_cons in He as [-> | He];
          [unfold AdapterErrors; simpl; listed |]).
  by apply elem_of_nil in He.
Defined.

(** X3: filling an error set from a list of errors counts each distinct error
    once.  A [range] over the set visits the list without its repetitions, in
    some order; the set's length is the number of distinct errors, never more
    than the list's length and equal to it exactly when the list repeats
    nothing. *)
Theorem ErrorSet_make_counts_distinct (es : list AdapterError) :
  ErrorSet.keys (ErrorSet.make es) ≡ₚ remove_dups es ∧
  ErrorSet.len (ErrorSet.make es) = length (remove_dups es) ∧
  (ErrorSet.len (ErrorSet.make es) ≤ length es)%nat ∧
  (ErrorSet.len (ErrorSet.make es) = length es ↔ NoDup es).
Proof.
  assert (Hperm : ErrorSet.keys (ErrorSet.make es) ≡ₚ remove_dups es).
  { apply NoDup_Permutation.
    - apply NoDup_fst_map_to_list.
    - apply NoDup_remove_dups.
    - intros e.
      by rewrite ErrorSet_elem_of_keys, ErrorSet_has_make, elem_of_remove_dups. }
  assert (Hlen : ErrorSet.len (ErrorSet.make es) = length (remove_dups es)).
  { rewrite ErrorSet_len_keys. by apply Permutation_length. }
  assert (Hsub : remove_dups es ⊆+ es).
  { apply NoDup_submseteq; [apply NoDup_remove_dups |].
    intros e. by rewrite elem_of_remove_dups. }
  split; [exact Hperm |]. split; [exact Hlen |]. split.
  - rewrite Hlen. by apply submseteq_length.
  - rewrite Hlen. split.
    + intros Heq.
      apply submseteq_length_Permutation in Hsub; [| lia].
      rewrite <- Hsub. apply NoDup_remove_dups.
    + intros Hnodup.
      apply Permutation_length, NoDup_Permutation;
        [apply NoDup_remove_dups | exact Hnodup |].
      intros e. apply elem_of_remove_dups.
Qed.

(** X3 at three timeouts and one bad input: two errors are counted. *)
Lemma ErrorSet_make_counts_distinct_witness :
  ErrorSet.len (ErrorSet.make ["timeout"; "badinput"; "timeout"; "timeout"]) = 2.
Proof.
  rewrite (proj1 (proj2 (ErrorSet_make_counts_distinct
                           ["timeout"; "badinput"; "timeout"; "timeout"]))).
  vm_compute. reflexivity.
Defined.

(** ** The interface by label bundle *)

(** X4: the operations of [MetricsEngine] fall into groups by the label bundle
    they take.  Three take a [Labels], five take an [AdapterLabels], one takes
    an [ImpLabels] and one a [UserLabels]; an operation takes at most one
    bundle, and takes it as its first parameter. *)
Theorem MetricsEngine_bundle_groups :
  methods_taking TLabels =
    ["RecordRequest"; "RecordLegacyImps"; "RecordRequestTime"] ∧
  methods_taking TAdapterLabels =
    ["RecordAdapterRequest"; "RecordAdapterPanic"; "RecordAdapterBidReceived";
     "RecordAdapterPrice"; "RecordAdapterTime"] ∧
  methods_taking TImpLabels = ["RecordImps"] ∧
  methods_taking TUserLabels = ["RecordUserIDSet"] ∧
  Forall
    (λ m : Method,
       filter is_bundle (params m) = [] ∨
       ∃ t : GoType, filter is_bundle (params m) = [t] ∧ head (params m) = Some t)
    MetricsEngine.
Proof.
  repeat apply conj; try (vm_compute; reflexivity).
  unfold MetricsEngine.
  repeat (apply Forall_cons; split;
          [first [by left | right; eexists; split; vm_compute; reflexivity] |]).
  apply Forall_nil_2.
Qed.

(** ** Two invocations *)

(** X5: the slices of two invocations, of the same accessor or of two, never
    alias.  After both calls each slice holds its own list, and a store through
    the second slice leaves the first as it was. *)
Theorem invocations_do_not_alias (f g : Accessor) (h h' : heap) (i : nat) (v : string) :
  store (invoke g (invoke f h).2).1 i v (invoke g (invoke f h).2).2 = Some h' →
  (invoke f h).1 ≠ (invoke g (invoke f h).2).1 ∧
  (invoke g (invoke f h).2).2 !! (invoke f h).1 = Some (body f) ∧
  (invoke g (invoke f h).2).2 !! (invoke g (invoke f h).2).1 = Some (body g) ∧
  h' !! (invoke f h).1 = Some (body f) ∧
  h' !! (invoke g (invoke f h).2).1 = Some (<[i := v]> (body g)).
Proof.
  set (p1 := (invoke f h).1). set (h1 := (invoke f h).2).
  set (p2 := (invoke g h1).1). set (h2 := (invoke g h1).2).
  intros Hstore.
  assert (Hp1 : h1 !! p1 = Some (body f)) by apply lookup_insert_eq.
  assert (Hne : p1 ≠ p2).
  { intros Heq. apply (invoke_fresh g h1). fold p2. rewrite <- Heq.
    apply elem_of_dom. by eexists. }
  assert (Hp1' : h2 !! p1 = Some (body f)).
  { unfold h2, invoke. simpl. fold p2.
    rewrite lookup_insert_ne by (intros Heq; by apply Hne). exact Hp1. }
  assert (Hp2 : h2 !! p2 = Some (body g)) by apply lookup_insert_eq.
  repeat apply conj; try assumption.
  - unfold store in Hstore. rewrite Hp2 in Hstore.
    destruct (decide (i < length (body g))); [| discriminate].
    injection Hstore as <-.
    rewrite lookup_insert_ne by (intros Heq; by apply Hne). exact Hp1'.
  - destruct (store_Some _ _ _ _ _ Hstore) as (l & Hl & _ & Hl').
    rewrite Hp2 in Hl. injection Hl as <-. exact Hl'.
Qed.

(** X5 at [BrowserTypes()] followed by [CookieTypes()], the second result
    overwritten at index 2. *)
Lemma invocations_do_not_alias_witness :
  (invoke FnBrowserTypes ∅).1 ≠ (invoke FnCookieTypes (invoke FnBrowserTypes ∅).2).1 ∧
  (invoke FnCookieTypes (invoke FnBrowserTypes ∅).2).2 !! (invoke FnBrowserTypes ∅).1 =
    Some (body FnBrowserTypes) ∧
  (invoke FnCookieTypes (invoke FnBrowserTypes ∅).2).2 !!
    (invoke FnCookieTypes (invoke FnBrowserTypes ∅).2).1 = Some (body FnCookieTypes) ∧
  <[1 := ["exists"; "no"; "yes"]]> (invoke FnCookieTypes (invoke FnBrowserTypes ∅).2).2 !!
    (invoke FnBrowserTypes ∅).1 = Some (body FnBrowserTypes) ∧
  <[1 := ["exists"; "no"; "yes"]]> (invoke FnCookieTypes (invoke FnBrowserTypes ∅).2).2 !!
    (invoke FnCookieTypes (invoke FnBrowserTypes ∅).2).1 =
    Some (<[2 := "yes"]> (body FnCookieTypes)).
Proof.
  apply (invocations_do_not_alias FnBrowserTypes FnCookieTypes ∅
           (<[1 := ["exists"; "no"; "yes"]]>
              (invoke FnCookieTypes (invoke FnBrowserTypes ∅).2).2) 2 "yes").
  vm_compute. reflexivity.
Defined.
